(** * The scroll- and pointer-driven parallax scene of [src/index.js]

    The program wires two animated values, [top] (scroll offset) and [mouse]
    (pointer offset from the viewport centre), to the parameters of a handful
    of layers: a spot light, a glitch pass, a background plane, a star field,
    a list of images and two text sprites.

    JavaScript numbers are read as real numbers: the development is about the
    arithmetic the program writes down, not about IEEE rounding.  Hooks of the
    rendering framework are given by the state they keep ([useState] a field,
    [useMemo] a cached value with its dependency list, [useRender] a per-frame
    step). *)

From Stdlib Require Import Reals Lra List String Ascii Bool ZArith Lia.
Import ListNotations.
Local Open Scope R_scope.

Definition Vec2 : Type := R * R.
Definition Vec3 : Type := R * R * R.

Definition vx (v : Vec3) : R := fst (fst v).
Definition vy (v : Vec3) : R := snd (fst v).
Definition vz (v : Vec3) : R := snd v.

(** ** Range interpolation *)

Module Interp.

(** Modelled from the spec: what the library's interpolator (not under src/)
    does with an input outside its input range.  [Clamp] holds the end value,
    as the spec says of the program's interpolations; [Extend], the other
    reading of a linear segment, continues the end segment's line. *)
Inductive Extrapolate : Type := Extend | Clamp.

(** Modelled from the spec: the range form of [interpolate]
    ([value.interpolate(range, output)]) belongs to the animation library,
    whose code is not under src/.  The spec describes it as piecewise-linear
    over the input stops.  [findRange] picks the segment: the first interior
    stop that is not below the input closes the segment, the last segment
    takes everything else. *)
Fixpoint findRange_from (input : R) (inner : list R) (i : nat) : nat :=
  match inner with
  | stop :: ((_ :: _) as rest) =>
      if Rle_dec input stop then i else findRange_from input rest (S i)
  | _ => i
  end.

(** Modelled from the spec: the segment of the library's interpolator (not
    under src/) an input falls in, counted from 0. *)
Definition findRange (input : R) (inputRange : list R) : nat :=
  findRange_from input (tl inputRange) 0.

(** Modelled from the spec: the input a segment of the library's
    interpolator (not under src/) works with, held at the segment's ends when
    the interpolation is clamped. *)
Definition extrapolateInput (ex : Extrapolate) (input inputMin inputMax : R) : R :=
  let left :=
    if Rlt_dec input inputMin
    then match ex with Clamp => inputMin | Extend => input end
    else input in
  if Rlt_dec inputMax left
  then match ex with Clamp => inputMax | Extend => left end
  else left.

(** Modelled from the spec: one linear segment of the library's interpolator
    (not under src/), from [inputMin, inputMax] onto [outputMin, outputMax]. *)
Definition interpolateSegment (ex : Extrapolate)
  (input inputMin inputMax outputMin outputMax : R) : R :=
  let result := extrapolateInput ex input inputMin inputMax in
  if Req_dec_T outputMin outputMax then outputMin
  else if Req_dec_T inputMin inputMax
       then (if Rle_dec input inputMin then outputMin else outputMax)
       else (result - inputMin) / (inputMax - inputMin) * (outputMax - outputMin)
            + outputMin.

(** Modelled from the spec: the library's range interpolator (not under
    src/).  A stop missing from a list reads as 0; every call of the program
    passes lists of equal length. *)
Definition interpolate (ex : Extrapolate) (range output : list R) (input : R) : R :=
  let i := findRange input range in
  interpolateSegment ex input
    (nth i range 0) (nth (S i) range 0)
    (nth i output 0) (nth (S i) output 0).

(** Modelled from the spec: the extrapolation a call gets when it names none,
    as every call of the program does.  The library's default is not under
    src/; the spec says the interpolation is clamped at the ends. *)
Definition defaultExtrapolate : Extrapolate := Clamp.

End Interp.

(** ** Colours *)

Module Colour.

(** A colour literal of the source, parsed: three channels in 0..255. *)
Record RGB : Type := mkRGB { red : Z; green : Z; blue : Z }.

(** An interpolated colour: the channels are numbers. *)
Record Color : Type := mkColor { cr : R; cg : R; cb : R }.

Definition hexDigit (c : ascii) : option Z :=
  let n := Z.of_N (N_of_ascii c) in
  if ((48 <=? n) && (n <=? 57))%Z then Some (n - 48)%Z
  else if ((65 <=? n) && (n <=? 70))%Z then Some (n - 55)%Z
  else if ((97 <=? n) && (n <=? 102))%Z then Some (n - 87)%Z
  else None.

Definition hexByte (hi lo : ascii) : option Z :=
  match hexDigit hi, hexDigit lo with
  | Some h, Some l => Some (16 * h + l)%Z
  | _, _ => None
  end.

Definition parseHex (s : string) : option RGB :=
  match s with
  | String "#" (String r1 (String r2 (String g1 (String g2
      (String b1 (String b2 EmptyString)))))) =>
      match hexByte r1 r2, hexByte g1 g2, hexByte b1 b2 with
      | Some r, Some g, Some b => Some (mkRGB r g b)
      | _, _, _ => None
      end
  | _ => None
  end.

Definition hexColor (s : string) : RGB :=
  match parseHex s with
  | Some c => c
  | None => mkRGB 0 0 0
  end.

Definition toColor (c : RGB) : Color :=
  mkColor (IZR (red c)) (IZR (green c)) (IZR (blue c)).

(** Modelled from the spec: the library's interpolator over colour outputs
    (not under src/): each channel is interpolated over the same stops. *)
Definition interpolateColor (ex : Interp.Extrapolate) (range : list R)
  (output : list RGB) (input : R) : Color :=
  mkColor
    (Interp.interpolate ex range (map (fun c => IZR (red c)) output) input)
    (Interp.interpolate ex range (map (fun c => IZR (green c)) output) input)
    (Interp.interpolate ex range (map (fun c => IZR (blue c)) output) input).

(** The point at fraction [t] of the straight line from [a] to [b]. *)
Definition mix (a b : RGB) (t : R) : Color :=
  mkColor (IZR (red a) + t * (IZR (red b) - IZR (red a)))
          (IZR (green a) + t * (IZR (green b) - IZR (green a)))
          (IZR (blue a) + t * (IZR (blue b) - IZR (blue a))).

Definition channels : list (Color -> R) := [cr; cg; cb].

End Colour.

(** ** The scene composer *)

Record Size : Type := mkSize { width : R; height : R }.

(** One row of [data]: [url, x, y, factor, z, scale]. *)
Record ImageData : Type := mkImageData {
  d_url : string;
  d_x : R;
  d_y : R;
  d_factor : R;
  d_z : R;
  d_scale : R
}.

(** The properties [Scene] hands to one [Image]. *)
Record ImageProps : Type := mkImageProps {
  i_url : string;
  i_scale : R;
  i_opacity : R;
  i_position : Vec3
}.

(** The properties [Scene] hands to a [Text]; [color] and [fontSize] fall
    back to the defaults of the component when the caller gives none. *)
Record TextProps : Type := mkTextProps {
  t_children : string;
  t_position : Vec3;
  t_opacity : option R;
  t_color : string;
  t_fontSize : R
}.

Record SceneProps : Type := mkSceneProps {
  spotLight_position : Vec3;
  effects_factor : R;
  background_color : Colour.Color;
  stars_position : Vec3;
  images : list ImageProps;
  text_lorem : TextProps;
  text_ipsum : TextProps
}.

Definition scrollMax (size : Size) : R := height size * 4.5.

Definition backgroundRange (size : Size) : list R :=
  [0; scrollMax size * 0.25; scrollMax size * 0.5; scrollMax size].

Definition backgroundStops : list string :=
  ["#27282F"; "#247BA0"; "#70C1B3"; "#e8f3f1"]%string.

Definition glitchFactor (top : R) : R :=
  Interp.interpolate Interp.defaultExtrapolate [0; 150] [1; 0] top.

Definition backgroundColor (size : Size) (top : R) : Colour.Color :=
  Colour.interpolateColor Interp.defaultExtrapolate
    (backgroundRange size) (map Colour.hexColor backgroundStops) top.

Definition imageOpacity (top : R) : R :=
  Interp.interpolate Interp.defaultExtrapolate [0; 500] [0; 1] top.

Definition textOpacity (top : R) : R :=
  Interp.interpolate Interp.defaultExtrapolate [0; 200] [1; 0] top.

Definition imagePosition (size : Size) (d : ImageData) (top : R) (mouse : Vec2) : Vec3 :=
  ((- fst mouse * d_factor d) / 50000 + d_x d,
   (snd mouse * d_factor d) / 50000 + d_y d * 1.15
     + ((top * d_factor d) / scrollMax size) * 2,
   d_z d + top / 2000).

Definition imageProps (size : Size) (top : R) (mouse : Vec2) (d : ImageData) : ImageProps :=
  mkImageProps (d_url d) (d_scale d) (imageOpacity top) (imagePosition size d top mouse).

Definition Scene (data : list ImageData) (size : Size) (top : R) (mouse : Vec2) : SceneProps :=
  mkSceneProps
    (fst mouse / 100, - snd mouse / 100, 6.5)
    (glitchFactor top)
    (backgroundColor size top)
    (0, -1 + top / 20, 0)
    (map (imageProps size top mouse) data)
    (mkTextProps "lorem" (0, -1 + top / 200, 0) (Some (textOpacity top)) "white" 410)
    (mkTextProps "Ipsum" (0, -19 + ((top * 10) / scrollMax size) * 2, 0) None "black" 150).

(** ** The image layer *)

Module Image.

(** [useState(false)]: whether the pointer is over the mesh. *)
Record State : Type := mkState { hovered : bool }.

Definition init : State := mkState false.

Definition hover (st : State) : State := mkState true.

Definition unhover (st : State) : State := mkState false.

(** [useSpring({ factor: hovered ? 1.25 : 1 })]: the value the spring is sent to. *)
Definition factorTarget (st : State) : R :=
  if hovered st then 1.25 else 1.

(** [factor.interpolate(f => [scale * f, scale * f, 1])]. *)
Definition meshScale (scale f : R) : Vec3 :=
  (scale * f, scale * f, 1).

(** The two pointer events the mesh listens to ([onHover], [onUnhover]). *)
Inductive Pointer : Type := Enter | Leave.

Definition handle (st : State) (ev : Pointer) : State :=
  match ev with
  | Enter => hover st
  | Leave => unhover st
  end.

Definition handles (evs : list Pointer) (st : State) : State :=
  fold_left handle evs st.

End Image.

(** ** The text layer *)

Module Text.

(** The offscreen canvas after the drawing calls of the factory. *)
Record Canvas : Type := mkCanvas {
  c_width : R;
  c_height : R;
  font_px : R;
  textAlign : string;
  textBaseline : string;
  fillStyle : string;
  fillText : list (string * R * R)
}.

Definition draw (children color : string) (fontSize : R) : Canvas :=
  mkCanvas 2048 2048 fontSize "center" "middle" color
    [(children, 1024, 1024 - 410 / 2)].

(** The dependency list [[children, size.width, size.height]]. *)
Definition Deps : Type := string * R * R.

Definition deps_eq_dec (a b : Deps) : {a = b} + {a <> b}.
Proof.
  decide equality; [apply Req_dec_T | decide equality; [apply Req_dec_T | apply string_dec]].
Defined.

(** [useMemo]: the cell keeps the last dependency list with the value made
    for it; the factory runs on the first render and when the list differs. *)
Definition Cell : Type := option (Deps * Canvas).

Definition regenerates (cell : Cell) (deps : Deps) : bool :=
  match cell with
  | Some (old, _) => if deps_eq_dec old deps then false else true
  | None => true
  end.

Definition useMemo (cell : Cell) (deps : Deps) (factory : unit -> Canvas) : Canvas * Cell :=
  match cell with
  | Some (old, value) =>
      if deps_eq_dec old deps then (value, cell)
      else let value' := factory tt in (value', Some (deps, value'))
  | None => let value' := factory tt in (value', Some (deps, value'))
  end.

Record Sprite : Type := mkSprite {
  sprite_scale : Vec3;
  sprite_position : Vec3;
  material_opacity : option R;
  map_image : Canvas
}.

Definition render (props : TextProps) (size viewport : Size) (cell : Cell) : Sprite * Cell :=
  let scale :=
    if Rlt_dec (height viewport) (width viewport)
    then width viewport else height viewport in
  let (canvas, cell') :=
    useMemo cell (t_children props, width size, height size)
      (fun _ => draw (t_children props) (t_color props) (t_fontSize props)) in
  (mkSprite (scale, scale, 1) (t_position props) (t_opacity props) canvas, cell').

(** The same component rendered again with other [color] and [fontSize]. *)
Definition restyle (props : TextProps) (color : string) (fontSize : R) : TextProps :=
  mkTextProps (t_children props) (t_position props) (t_opacity props) color fontSize.

(** A canvas that shows the string [s]: drawn once, at the fixed place, on
    the 2048 x 2048 bitmap. *)
Definition showsString (canvas : Canvas) (s : string) : Prop :=
  fillText canvas = [(s, 1024, 819)] /\ c_width canvas = 2048 /\ c_height canvas = 2048.

(** A cell whose remembered canvas shows the remembered string. *)
Definition cellShows (cell : Cell) : Prop :=
  match cell with
  | Some ((s, _, _), canvas) => showsString canvas s
  | None => True
  end.

(** One render after another of the same component: each is given its
    properties, the canvas size and the viewport, and leaves its cell to the
    next. *)
Definition renders (rs : list (TextProps * Size * Size)) (cell : Cell) : Cell :=
  fold_left (fun c r => snd (render (fst (fst r)) (snd (fst r)) (snd r) c)) rs cell.

End Text.

(** ** The star field *)

Module Stars.

Definition degToRad (degrees : R) : R := degrees * (PI / 180).

Record Group : Type := mkGroup { rotation : Vec3; scale : Vec3 }.

(** [theta] is the accumulator the frame callback closes over; [group] is the
    object behind the ref. *)
Record State : Type := mkState { theta : R; group : Group }.

Definition init : State := mkState 0 (mkGroup (0, 0, 0) (1, 1, 1)).

(** The callback given to [useRender]. *)
Definition frame (st : State) : State :=
  let theta' := theta st + 0.01 in
  let r := 5 * sin (degToRad theta') in
  let s := cos (degToRad (theta' * 2)) in
  mkState theta' (mkGroup (r, r, r) (s, s, s)).

Fixpoint frames (n : nat) (st : State) : State :=
  match n with
  | O => st
  | S k => frame (frames k st)
  end.

(** The positions of the spheres: [new Array(1000).fill().map(...)] draws
    three numbers from [Math.random] for each entry, in order; [random n] is
    the n-th number drawn. *)
Definition coord (random : nat -> R) (k : nat) : Vec3 :=
  (random (3 * k)%nat * 800 - 400,
   random (3 * k + 1)%nat * 800 - 400,
   random (3 * k + 2)%nat * 800 - 400).

Definition coords (random : nat -> R) : list Vec3 :=
  map (coord random) (seq 0 1000).

End Stars.

(** ** The post-processing layer *)

Module Effects.

(** The composer behind the ref, as far as the component drives it: the
    sizes [setSize] was called with, newest first. *)
Record State : Type := mkState {
  setSize_calls : list (R * R);
  effect_deps : option (R * R)
}.

Definition size_eq_dec (a b : R * R) : {a = b} + {a <> b}.
Proof.
  decide equality; apply Req_dec_T.
Defined.

Definition mount : State := mkState [] None.

(** One render with its effect:
    [useEffect(() => void composer.current.obj.setSize(size.width, size.height),
               [size.width, size.height])]. *)
Definition render (st : State) (size : Size) : State :=
  let deps := (width size, height size) in
  match effect_deps st with
  | Some old =>
      if size_eq_dec old deps then st
      else mkState (deps :: setSize_calls st) (Some deps)
  | None => mkState (deps :: setSize_calls st) (Some deps)
  end.

Definition renders (sizes : list Size) (st : State) : State :=
  fold_left render sizes st.

End Effects.

(** ** The root controller *)

Module Main.

(** An animated value: where it is and where it is sent. *)
Record Spring (A : Type) : Type := mkSpring { value : A; target : A }.
Arguments mkSpring {A} _ _.
Arguments value {A} _.
Arguments target {A} _.

Record State : Type := mkState { top : Spring R; mouse : Spring Vec2 }.

Record Window : Type := mkWindow { innerWidth : R; innerHeight : R }.

Record MouseEvent : Type := mkMouseEvent { clientX : R; clientY : R }.

Record ScrollEvent : Type := mkScrollEvent { scrollTop : R }.

(** [useSpring(() => ({ top: 0, mouse: [0, 0] }))]. *)
Definition init : State :=
  mkState (mkSpring 0 0) (mkSpring (0, 0) (0, 0)).

(** [set({ top })] and [set({ mouse })]: only the named value is sent to a
    new target. *)
Definition set_top (v : R) (st : State) : State :=
  mkState (mkSpring (value (top st)) v) (mouse st).

Definition set_mouse (v : Vec2) (st : State) : State :=
  mkState (top st) (mkSpring (value (mouse st)) v).

Definition onMouseMove (w : Window) (e : MouseEvent) (st : State) : State :=
  set_mouse (clientX e - innerWidth w / 2, clientY e - innerHeight w / 2) st.

Definition onScroll (e : ScrollEvent) (st : State) : State :=
  set_top (scrollTop e) st.

End Main.

(** ** The running page *)

Module Page.

(** Everything the page keeps between frames. *)
Record World : Type := mkWorld {
  w_size : Size;
  w_window : Main.Window;
  w_main : Main.State;
  w_stars : Stars.State;
  w_images : list Image.State
}.

Inductive Event : Type :=
| Scroll (e : Main.ScrollEvent)
| MouseMove (e : Main.MouseEvent)
| Hover (i : nat)
| Unhover (i : nat)
| Frame
| Resize (size : Size) (window : Main.Window).

Fixpoint update_nth {A : Type} (i : nat) (f : A -> A) (l : list A) : list A :=
  match l, i with
  | [], _ => []
  | x :: rest, O => f x :: rest
  | x :: rest, S k => x :: update_nth k f rest
  end.

Section Step.

(** The integrator of the animation library moves a spring towards its
    target on every frame; its code is not part of the program. *)
Variable integrateR : Main.Spring R -> Main.Spring R.
Variable integrateV : Main.Spring Vec2 -> Main.Spring Vec2.

Definition step (w : World) (ev : Event) : World :=
  match ev with
  | Scroll e =>
      mkWorld (w_size w) (w_window w) (Main.onScroll e (w_main w))
        (w_stars w) (w_images w)
  | MouseMove e =>
      mkWorld (w_size w) (w_window w) (Main.onMouseMove (w_window w) e (w_main w))
        (w_stars w) (w_images w)
  | Hover i =>
      mkWorld (w_size w) (w_window w) (w_main w) (w_stars w)
        (update_nth i Image.hover (w_images w))
  | Unhover i =>
      mkWorld (w_size w) (w_window w) (w_main w) (w_stars w)
        (update_nth i Image.unhover (w_images w))
  | Frame =>
      mkWorld (w_size w) (w_window w)
        (Main.mkState (integrateR (Main.top (w_main w)))
                      (integrateV (Main.mouse (w_main w))))
        (Stars.frame (w_stars w)) (w_images w)
  | Resize size window =>
      mkWorld size window (w_main w) (w_stars w) (w_images w)
  end.

Definition run (evs : list Event) (w : World) : World :=
  fold_left step evs w.

End Step.

Definition isFrame (ev : Event) : bool :=
  match ev with
  | Frame => true
  | _ => false
  end.

Definition isScroll (ev : Event) : bool :=
  match ev with
  | Scroll _ => true
  | _ => false
  end.

Definition isMouseMove (ev : Event) : bool :=
  match ev with
  | MouseMove _ => true
  | _ => false
  end.

Definition isResize (ev : Event) : bool :=
  match ev with
  | Resize _ _ => true
  | _ => false
  end.





End Page.

(** A function that does not change direction on [[a, b]]. *)
Definition monotoneOn (f : R -> R) (a b : R) : Prop :=
  (forall x y, a <= x -> x <= y -> y <= b -> f x <= f y) \/
  (forall x y, a <= x -> x <= y -> y <= b -> f y <= f x).

(** ** Facts about the interpolator *)

Section InterpFacts.

Import Interp.

Lemma interpolate_two_stops (ex : Extrapolate) (a b oa ob input : R) :
  interpolate ex [a; b] [oa; ob] input = interpolateSegment ex input a b oa ob.
Proof. reflexivity. Qed.

Lemma segment_at_min (ex : Extrapolate) (a b oa ob : R) :
  a <= b -> interpolateSegment ex a a b oa ob = oa.
Proof.
  intros Hab. unfold interpolateSegment, extrapolateInput.
  destruct (Req_dec_T oa ob) as [|_]; [reflexivity|].
  destruct (Req_dec_T a b) as [|Hne].
  { destruct (Rle_dec a a) as [_|]; [reflexivity | lra]. }
  destruct (Rlt_dec a a) as [|_]; [lra|].
  destruct (Rlt_dec b a) as [|_]; [lra|].
  field; lra.
Qed.

Lemma segment_at_max (ex : Extrapolate) (a b oa ob : R) :
  a < b -> interpolateSegment ex b a b oa ob = ob.
Proof.
  intros Hab. unfold interpolateSegment, extrapolateInput.
  destruct (Req_dec_T oa ob) as [|_]; [assumption|].
  destruct (Req_dec_T a b) as [|_]; [lra|].
  destruct (Rlt_dec b a) as [|_]; [lra|].
  destruct (Rlt_dec b b) as [|_]; [lra|].
  field; lra.
Qed.

Lemma segment_clamp_right (a b oa ob input : R) :
  a < b -> b <= input -> interpolateSegment Clamp input a b oa ob = ob.
Proof.
  intros Hab Hin. unfold interpolateSegment, extrapolateInput.
  destruct (Req_dec_T oa ob) as [|_]; [assumption|].
  destruct (Req_dec_T a b) as [|_]; [lra|].
  destruct (Rlt_dec input a) as [|_]; [lra|].
  destruct (Rlt_dec b input) as [|Hnb]; [field; lra|].
  replace input with b by lra. field; lra.
Qed.

Lemma segment_clamp_left (a b oa ob input : R) :
  a < b -> input <= a -> interpolateSegment Clamp input a b oa ob = oa.
Proof.
  intros Hab Hin. unfold interpolateSegment, extrapolateInput.
  destruct (Req_dec_T oa ob) as [|_]; [reflexivity|].
  destruct (Req_dec_T a b) as [|_]; [lra|].
  destruct (Rlt_dec input a) as [|Hna].
  - destruct (Rlt_dec b a) as [|_]; [lra|]. field; lra.
  - destruct (Rlt_dec b input) as [|_]; [lra|].
    replace input with a by lra. field; lra.
Qed.

Lemma segment_inside (ex : Extrapolate) (a b oa ob input : R) :
  a < b -> a <= input <= b ->
  interpolateSegment ex input a b oa ob
  = oa + (input - a) / (b - a) * (ob - oa).
Proof.
  intros Hab [Hl Hr]. unfold interpolateSegment, extrapolateInput.
  destruct (Req_dec_T oa ob) as [->|_]; [field; lra|].
  destruct (Req_dec_T a b) as [|_]; [lra|].
  destruct (Rlt_dec input a) as [|_]; [lra|].
  destruct (Rlt_dec b input) as [|_]; [lra|].
  field; lra.
Qed.

Lemma segment_extend_right (a b oa ob input : R) :
  a < b -> b <= input ->
  interpolateSegment Extend input a b oa ob
  = oa + (input - a) / (b - a) * (ob - oa).
Proof.
  intros Hab Hin. unfold interpolateSegment, extrapolateInput.
  destruct (Req_dec_T oa ob) as [->|_]; [field; lra|].
  destruct (Req_dec_T a b) as [|_]; [lra|].
  destruct (Rlt_dec input a) as [|_]; [lra|].
  destruct (Rlt_dec b input) as [|_]; field; lra.
Qed.

End InterpFacts.

(** The four-stop interpolator, segment by segment. *)
Section FourStops.

Import Interp.

Variables s0 s1 s2 s3 : R.
Variables o0 o1 o2 o3 : R.
Hypothesis Hs01 : s0 < s1.
Hypothesis Hs12 : s1 < s2.
Hypothesis Hs23 : s2 < s3.

Let ramp (ex : Extrapolate) : R -> R :=
  interpolate ex [s0; s1; s2; s3] [o0; o1; o2; o3].

Lemma findRange_four (input : R) :
  findRange input [s0; s1; s2; s3]
  = if Rle_dec input s1 then 0%nat else if Rle_dec input s2 then 1%nat else 2%nat.
Proof. reflexivity. Qed.

Lemma ramp_first (ex : Extrapolate) (input : R) :
  s0 <= input <= s1 ->
  ramp ex input = o0 + (input - s0) / (s1 - s0) * (o1 - o0).
Proof using Hs01 Hs12 Hs23.
  intros [Hl Hr]. unfold ramp, interpolate. rewrite findRange_four.
  destruct (Rle_dec input s1) as [_|]; [|lra].
  cbn [nth]. apply segment_inside; lra.
Qed.

Lemma ramp_second (ex : Extrapolate) (input : R) :
  s1 <= input <= s2 ->
  ramp ex input = o1 + (input - s1) / (s2 - s1) * (o2 - o1).
Proof using Hs01 Hs12 Hs23.
  intros [Hl Hr]. unfold ramp, interpolate. rewrite findRange_four.
  destruct (Rle_dec input s1) as [Hle|Hgt].
  - assert (input = s1) as -> by lra. cbn [nth].
    rewrite segment_at_max by lra. field; lra.
  - destruct (Rle_dec input s2) as [_|]; [|lra].
    cbn [nth]. apply segment_inside; lra.
Qed.

Lemma ramp_third (ex : Extrapolate) (input : R) :
  s2 <= input <= s3 ->
  ramp ex input = o2 + (input - s2) / (s3 - s2) * (o3 - o2).
Proof using Hs01 Hs12 Hs23.
  intros [Hl Hr]. unfold ramp, interpolate. rewrite findRange_four.
  destruct (Rle_dec input s1) as [|_]; [lra|].
  destruct (Rle_dec input s2) as [Hle|Hgt].
  - assert (input = s2) as -> by lra. cbn [nth].
    rewrite segment_at_max by lra. field; lra.
  - cbn [nth]. apply segment_inside; lra.
Qed.

Lemma ramp_below (input : R) : input <= s0 -> ramp Clamp input = o0.
Proof using Hs01 Hs12 Hs23.
  intros Hin. unfold ramp, interpolate. rewrite findRange_four.
  destruct (Rle_dec input s1) as [_|]; [|lra].
  cbn [nth]. apply segment_clamp_left; lra.
Qed.

Lemma ramp_above (input : R) : s3 <= input -> ramp Clamp input = o3.
Proof using Hs01 Hs12 Hs23.
  intros Hin. unfold ramp, interpolate. rewrite findRange_four.
  destruct (Rle_dec input s1) as [|_]; [lra|].
  destruct (Rle_dec input s2) as [|_]; [lra|].
  cbn [nth]. apply segment_clamp_right; lra.
Qed.

End FourStops.

Lemma linear_monotoneOn (f : R -> R) (a b oa ob : R) :
  a < b ->
  (forall x, a <= x <= b -> f x = oa + (x - a) / (b - a) * (ob - oa)) ->
  monotoneOn f a b.
Proof.
  intros Hab Hf.
  assert (Hpos : 0 < / (b - a)) by (apply Rinv_0_lt_compat; lra).
  assert (Hslope : forall x y, x <= y ->
            (x - a) / (b - a) <= (y - a) / (b - a)).
  { intros x y Hxy. unfold Rdiv. apply Rmult_le_compat_r; lra. }
  destruct (Rle_lt_dec oa ob) as [Hle|Hlt]; [left|right];
    intros x y Hx Hxy Hy; rewrite (Hf x), (Hf y) by lra;
    specialize (Hslope x y Hxy); nra.
Qed.

(** ** The scroll-driven parameters of the scene *)

(** The interpolations above are the ones [Scene] hands to its layers. *)
Lemma Scene_scroll_parameters (data : list ImageData) (size : Size)
  (top : R) (mouse : Vec2) :
  effects_factor (Scene data size top mouse) = glitchFactor top /\
  background_color (Scene data size top mouse) = backgroundColor size top /\
  t_opacity (text_lorem (Scene data size top mouse)) = Some (textOpacity top) /\
  map i_opacity (images (Scene data size top mouse))
  = map (fun _ => imageOpacity top) data.
Proof.
  cbn [Scene effects_factor background_color text_lorem t_opacity images].
  repeat split. rewrite map_map. reflexivity.
Qed.

Lemma glitchFactor_segment (top : R) :
  glitchFactor top = Interp.interpolateSegment Interp.Clamp top 0 150 1 0.
Proof. reflexivity. Qed.

Lemma glitchFactor_inside (top : R) :
  0 <= top <= 150 -> glitchFactor top = 1 - top / 150.
Proof.
  intros Htop. rewrite glitchFactor_segment, segment_inside by lra. field.
Qed.

Lemma glitchFactor_below (top : R) : top <= 0 -> glitchFactor top = 1.
Proof.
  intros Htop. rewrite glitchFactor_segment. apply segment_clamp_left; lra.
Qed.

(** What the same call would give past the range if the interpolator
    continued the line instead of holding the end value. *)
Lemma glitchFactor_when_extended (top : R) :
  150 <= top ->
  Interp.interpolate Interp.Extend [0; 150] [1; 0] top = 1 - top / 150.
Proof.
  intros Htop. rewrite interpolate_two_stops, segment_extend_right by lra. field.
Qed.

(** C1: the glitch factor is 1 at top = 0, 0 at top = 150, and stays 0 for
    every top above 150. *)
Theorem glitchFactor_clamped (top : R) (Htop : 150 < top) :
  glitchFactor 0 = 1 /\ glitchFactor 150 = 0 /\ glitchFactor top = 0.
Proof.
  rewrite !glitchFactor_segment. repeat split.
  - apply segment_at_min; lra.
  - apply segment_at_max; lra.
  - apply segment_clamp_right; lra.
Qed.

Lemma glitchFactor_clamped_witness :
  150 < 300 /\ glitchFactor 0 = 1 /\ glitchFactor 150 = 0 /\ glitchFactor 300 = 0.
Proof.
  split; [lra | apply (glitchFactor_clamped 300); lra].
Defined.

(** The colour literals of the ramp are well-formed and read as follows. *)
Lemma backgroundStops_parsed :
  map Colour.parseHex backgroundStops
  = [Some (Colour.mkRGB 39 40 47); Some (Colour.mkRGB 36 123 160);
     Some (Colour.mkRGB 112 193 179); Some (Colour.mkRGB 232 243 241)].
Proof. reflexivity. Qed.

Lemma hexColor_stop0 : Colour.hexColor "#27282F" = Colour.mkRGB 39 40 47.
Proof. reflexivity. Qed.

Lemma hexColor_stop1 : Colour.hexColor "#247BA0" = Colour.mkRGB 36 123 160.
Proof. reflexivity. Qed.

Lemma hexColor_stop2 : Colour.hexColor "#70C1B3" = Colour.mkRGB 112 193 179.
Proof. reflexivity. Qed.

Lemma hexColor_stop3 : Colour.hexColor "#e8f3f1" = Colour.mkRGB 232 243 241.
Proof. reflexivity. Qed.

Lemma backgroundColor_channels (size : Size) (top : R) :
  backgroundColor size top
  = Colour.mkColor
      (Interp.interpolate Interp.Clamp (backgroundRange size) [39; 36; 112; 232] top)
      (Interp.interpolate Interp.Clamp (backgroundRange size) [40; 123; 193; 243] top)
      (Interp.interpolate Interp.Clamp (backgroundRange size) [47; 160; 179; 241] top).
Proof. reflexivity. Qed.

Lemma mix_start (a b : Colour.RGB) : Colour.mix a b 0 = Colour.toColor a.
Proof. unfold Colour.mix, Colour.toColor. f_equal; ring. Qed.

Lemma mix_end (a b : Colour.RGB) : Colour.mix a b 1 = Colour.toColor b.
Proof. unfold Colour.mix, Colour.toColor. f_equal; ring. Qed.

Lemma mix_channel (ch : Colour.Color -> R) (a b : Colour.RGB) (t : R) :
  In ch Colour.channels ->
  ch (Colour.mix a b t)
  = ch (Colour.toColor a) + t * (ch (Colour.toColor b) - ch (Colour.toColor a)).
Proof.
  intros [<-|[<-|[<-|[]]]]; reflexivity.
Qed.

Section Ramp.

Variable size : Size.
Hypothesis Hheight : 0 < height size.

Let M : R := scrollMax size.

Lemma scrollMax_pos : 0 < scrollMax size.
Proof using Hheight. unfold scrollMax. lra. Qed.

Lemma backgroundRange_sorted :
  0 < M * 0.25 /\ M * 0.25 < M * 0.5 /\ M * 0.5 < M.
Proof using Hheight. pose proof scrollMax_pos. unfold M. lra. Qed.

Ltac ramp_with lem :=
  destruct backgroundRange_sorted as (H01 & H12 & H23);
  rewrite backgroundColor_channels; unfold backgroundRange; fold M;
  rewrite !lem by (assumption || lra).

Lemma backgroundColor_first (top : R) :
  0 <= top <= M * 0.25 ->
  backgroundColor size top
  = Colour.mix (Colour.hexColor "#27282F") (Colour.hexColor "#247BA0")
      (top / (M * 0.25)).
Proof using Hheight.
  intros Htop. ramp_with ramp_first.
  rewrite hexColor_stop0, hexColor_stop1.
  unfold Colour.mix; cbn [Colour.red Colour.green Colour.blue].
  f_equal; field; lra.
Qed.

Lemma backgroundColor_second (top : R) :
  M * 0.25 <= top <= M * 0.5 ->
  backgroundColor size top
  = Colour.mix (Colour.hexColor "#247BA0") (Colour.hexColor "#70C1B3")
      ((top - M * 0.25) / (M * 0.5 - M * 0.25)).
Proof using Hheight.
  intros Htop. ramp_with ramp_second.
  rewrite hexColor_stop1, hexColor_stop2. reflexivity.
Qed.

Lemma backgroundColor_third (top : R) :
  M * 0.5 <= top <= M ->
  backgroundColor size top
  = Colour.mix (Colour.hexColor "#70C1B3") (Colour.hexColor "#e8f3f1")
      ((top - M * 0.5) / (M - M * 0.5)).
Proof using Hheight.
  intros Htop. ramp_with ramp_third.
  rewrite hexColor_stop2, hexColor_stop3. reflexivity.
Qed.

Lemma backgroundColor_below (top : R) :
  top <= 0 ->
  backgroundColor size top = Colour.toColor (Colour.hexColor "#27282F").
Proof using Hheight.
  intros Htop. ramp_with ramp_below.
  rewrite hexColor_stop0. reflexivity.
Qed.

Lemma backgroundColor_above (top : R) :
  M <= top ->
  backgroundColor size top = Colour.toColor (Colour.hexColor "#e8f3f1").
Proof using Hheight.
  intros Htop. ramp_with ramp_above.
  rewrite hexColor_stop3. reflexivity.
Qed.

Lemma backgroundColor_at_quarter :
  backgroundColor size (M * 0.25) = Colour.toColor (Colour.hexColor "#247BA0").
Proof using Hheight.
  destruct backgroundRange_sorted as (H01 & H12 & H23).
  rewrite backgroundColor_second by lra.
  replace ((M * 0.25 - M * 0.25) / (M * 0.5 - M * 0.25)) with 0 by (field; lra).
  apply mix_start.
Qed.

Lemma backgroundColor_at_half :
  backgroundColor size (M * 0.5) = Colour.toColor (Colour.hexColor "#70C1B3").
Proof using Hheight.
  destruct backgroundRange_sorted as (H01 & H12 & H23).
  rewrite backgroundColor_third by lra.
  replace ((M * 0.5 - M * 0.5) / (M - M * 0.5)) with 0 by (field; lra).
  apply mix_start.
Qed.

Lemma backgroundColor_monotone (ch : Colour.Color -> R) :
  In ch Colour.channels ->
  monotoneOn (fun top => ch (backgroundColor size top)) 0 (M * 0.25) /\
  monotoneOn (fun top => ch (backgroundColor size top)) (M * 0.25) (M * 0.5) /\
  monotoneOn (fun top => ch (backgroundColor size top)) (M * 0.5) M.
Proof using Hheight.
  intros Hch. destruct backgroundRange_sorted as (H01 & H12 & H23).
  repeat split.
  - apply (linear_monotoneOn _ 0 (M * 0.25)
             (ch (Colour.toColor (Colour.hexColor "#27282F")))
             (ch (Colour.toColor (Colour.hexColor "#247BA0")))); [lra|].
    intros x Hx. rewrite backgroundColor_first, mix_channel by assumption.
    replace ((x - 0) / (M * 0.25 - 0)) with (x / (M * 0.25)) by (field; lra).
    reflexivity.
  - apply (linear_monotoneOn _ (M * 0.25) (M * 0.5)
             (ch (Colour.toColor (Colour.hexColor "#247BA0")))
             (ch (Colour.toColor (Colour.hexColor "#70C1B3")))); [lra|].
    intros x Hx. rewrite backgroundColor_second, mix_channel by assumption.
    reflexivity.
  - apply (linear_monotoneOn _ (M * 0.5) M
             (ch (Colour.toColor (Colour.hexColor "#70C1B3")))
             (ch (Colour.toColor (Colour.hexColor "#e8f3f1")))); [lra|].
    intros x Hx. rewrite backgroundColor_third, mix_channel by assumption.
    reflexivity.
Qed.

End Ramp.

(** C3: the background colour is a four-stop piecewise-linear ramp over
    [0, scrollMax/4, scrollMax/2, scrollMax] through '#27282F', '#247BA0',
    '#70C1B3' and '#e8f3f1': it takes each colour at its stop ('#e8f3f1' at
    scrollMax), runs along the straight line between neighbouring stops,
    every channel moving in one direction on each segment, and holds the
    nearest end colour outside [0, scrollMax].  The canvas has a positive
    height. *)
Theorem backgroundColor_ramp (size : Size) (Hheight : 0 < height size) :
  let M := scrollMax size in
  let stop := fun s => Colour.hexColor s in
  let bg := backgroundColor size in
  (bg 0 = Colour.toColor (stop "#27282F"%string) /\
   bg (M * 0.25) = Colour.toColor (stop "#247BA0"%string) /\
   bg (M * 0.5) = Colour.toColor (stop "#70C1B3"%string) /\
   bg M = Colour.toColor (stop "#e8f3f1"%string)) /\
  (forall top, 0 <= top <= M * 0.25 ->
     bg top = Colour.mix (stop "#27282F"%string) (stop "#247BA0"%string)
                (top / (M * 0.25))) /\
  (forall top, M * 0.25 <= top <= M * 0.5 ->
     bg top = Colour.mix (stop "#247BA0"%string) (stop "#70C1B3"%string)
                ((top - M * 0.25) / (M * 0.5 - M * 0.25))) /\
  (forall top, M * 0.5 <= top <= M ->
     bg top = Colour.mix (stop "#70C1B3"%string) (stop "#e8f3f1"%string)
                ((top - M * 0.5) / (M - M * 0.5))) /\
  (forall ch, In ch Colour.channels ->
     monotoneOn (fun top => ch (bg top)) 0 (M * 0.25) /\
     monotoneOn (fun top => ch (bg top)) (M * 0.25) (M * 0.5) /\
     monotoneOn (fun top => ch (bg top)) (M * 0.5) M) /\
  (forall top, top <= 0 -> bg top = Colour.toColor (stop "#27282F"%string)) /\
  (forall top, M <= top -> bg top = Colour.toColor (stop "#e8f3f1"%string)).
Proof.
  intros M stop bg. subst M stop bg.
  pose proof (scrollMax_pos size Hheight) as HM.
  split; [repeat split|repeat split].
  - apply backgroundColor_below; [assumption | lra].
  - apply backgroundColor_at_quarter; assumption.
  - apply backgroundColor_at_half; assumption.
  - apply backgroundColor_above; [assumption | lra].
  - intros top Htop. apply backgroundColor_first; assumption.
  - intros top Htop. apply backgroundColor_second; assumption.
  - intros top Htop. apply backgroundColor_third; assumption.
  - apply backgroundColor_monotone; assumption.
  - apply backgroundColor_monotone; assumption.
  - apply backgroundColor_monotone; assumption.
  - intros top Htop. apply backgroundColor_below; assumption.
  - intros top Htop. apply backgroundColor_above; assumption.
Qed.

Lemma backgroundColor_ramp_witness :
  0 < height (mkSize 800 600) /\
  backgroundColor (mkSize 800 600) (scrollMax (mkSize 800 600))
  = Colour.toColor (Colour.hexColor "#e8f3f1").
Proof.
  assert (H : 0 < height (mkSize 800 600)) by (simpl; lra).
  split; [exact H|].
  exact (proj2 (proj2 (proj2 (proj1 (backgroundColor_ramp (mkSize 800 600) H))))).
Defined.

Lemma backgroundColor_at_zero (size : Size) :
  0 <= height size ->
  backgroundColor size 0 = Colour.toColor (Colour.hexColor "#27282F").
Proof.
  intros Hheight. rewrite backgroundColor_channels, hexColor_stop0.
  unfold backgroundRange, Interp.interpolate. rewrite findRange_four.
  assert (0 <= scrollMax size * 0.25) by (unfold scrollMax; lra).
  destruct (Rle_dec 0 (scrollMax size * 0.25)) as [_|]; [|lra].
  cbn [nth]. rewrite !segment_at_min by assumption. reflexivity.
Qed.

Lemma textOpacity_at_zero : textOpacity 0 = 1.
Proof.
  unfold textOpacity. rewrite interpolate_two_stops. apply segment_at_min; lra.
Qed.

Lemma imageOpacity_at_zero : imageOpacity 0 = 0.
Proof.
  unfold imageOpacity. rewrite interpolate_two_stops. apply segment_at_min; lra.
Qed.

(** The values at the first stop do not depend on how the interpolator
    treats inputs outside its range. *)
Lemma first_stop_any_extrapolation (ex : Interp.Extrapolate) (b oa ob : R) :
  0 < b -> Interp.interpolate ex [0; b] [oa; ob] 0 = oa.
Proof.
  intros Hb. rewrite interpolate_two_stops. apply segment_at_min; lra.
Qed.

(** C4: at top = 0 the scene gets the background colour '#27282F', the
    (lorem) text opacity 1 and the opacity 0 for every image. *)
Theorem scene_at_top_zero (data : list ImageData) (size : Size) (mouse : Vec2)
  (Hheight : 0 <= height size) :
  let scene := Scene data size 0 mouse in
  background_color scene = Colour.toColor (Colour.hexColor "#27282F") /\
  t_opacity (text_lorem scene) = Some 1 /\
  Forall (fun image => i_opacity image = 0) (images scene).
Proof.
  cbn [Scene background_color text_lorem images t_opacity]. repeat split.
  - apply backgroundColor_at_zero; assumption.
  - rewrite textOpacity_at_zero. reflexivity.
  - induction data as [|d rest IH]; constructor.
    + apply imageOpacity_at_zero.
    + exact IH.
Qed.

Lemma scene_at_top_zero_witness :
  0 <= height (mkSize 800 600) /\
  let scene :=
    Scene [mkImageData "/a.png" 0 0 1 0 1; mkImageData "/b.png" 2 1 3 0 2]
      (mkSize 800 600) 0 (10, -20) in
  background_color scene = Colour.toColor (Colour.hexColor "#27282F") /\
  t_opacity (text_lorem scene) = Some 1 /\
  Forall (fun image => i_opacity image = 0) (images scene).
Proof.
  split; [simpl; lra | apply scene_at_top_zero; simpl; lra].
Defined.

(** ** The star field, frame by frame *)

Lemma frames_theta (n : nat) (st : Stars.State) :
  Stars.theta (Stars.frames n st) = Stars.theta st + 0.01 * INR n.
Proof.
  induction n as [|n IH].
  - simpl. ring.
  - rewrite S_INR. cbn [Stars.frames Stars.frame Stars.theta]. rewrite IH. ring.
Qed.

Lemma frame_group (st : Stars.State) :
  let angle := Stars.theta (Stars.frame st) in
  let r := 5 * sin (Stars.degToRad angle) in
  let s := cos (Stars.degToRad (angle * 2)) in
  Stars.group (Stars.frame st) = Stars.mkGroup (r, r, r) (s, s, s).
Proof. reflexivity. Qed.

Lemma degToRad_small (degrees : R) :
  0 < degrees <= 180 -> 0 < Stars.degToRad degrees <= PI.
Proof.
  intros Hd. unfold Stars.degToRad. pose proof PI_RGT_0. nra.
Qed.

(** C2, as the program has it: after N frames the accumulator is 0.01 * N and
    it grows with every frame; the frame that brings it to [angle] sets the
    rotation to 5 * sin(degToRad(angle)) on the three axes and the scale to
    cos(degToRad(2 * angle)) on the three axes. *)
Theorem stars_after_frames (N : nat) :
  let before := Stars.frames N Stars.init in
  let after := Stars.frames (S N) Stars.init in
  let angle := 0.01 * INR (S N) in
  let r := 5 * sin (Stars.degToRad angle) in
  let s := cos (Stars.degToRad (2 * angle)) in
  Stars.theta before = 0.01 * INR N /\
  Stars.theta after = angle /\
  Stars.theta before < Stars.theta after /\
  Stars.rotation (Stars.group after) = (r, r, r) /\
  Stars.scale (Stars.group after) = (s, s, s).
Proof.
  intros before after angle r s. subst before after.
  assert (Hn : Stars.theta (Stars.frames N Stars.init) = 0.01 * INR N).
  { rewrite frames_theta. simpl. ring. }
  assert (HS : Stars.theta (Stars.frames (S N) Stars.init) = angle).
  { rewrite frames_theta. simpl Stars.theta. subst angle. ring. }
  repeat split.
  - exact Hn.
  - exact HS.
  - rewrite Hn, HS. subst angle. rewrite S_INR. lra.
  - change (Stars.frames (S N) Stars.init)
      with (Stars.frame (Stars.frames N Stars.init)).
    rewrite frame_group. cbn [Stars.rotation].
    change (Stars.frame (Stars.frames N Stars.init))
      with (Stars.frames (S N) Stars.init).
    rewrite HS. reflexivity.
  - change (Stars.frames (S N) Stars.init)
      with (Stars.frame (Stars.frames N Stars.init)).
    rewrite frame_group. cbn [Stars.scale].
    change (Stars.frame (Stars.frames N Stars.init))
      with (Stars.frames (S N) Stars.init).
    rewrite HS. subst s. replace (angle * 2) with (2 * angle) by ring.
    reflexivity.
Qed.

(** C2 as worded fails at the first frame: the rotation is not
    sin(degToRad(angle)) and the scale is not cos(2 * angle). *)
Lemma stars_first_frame_differs :
  let after := Stars.frames 1 Stars.init in
  let angle := Stars.theta after in
  angle = 0.01 * INR 1 /\
  Stars.rotation (Stars.group after)
    <> (sin (Stars.degToRad angle), sin (Stars.degToRad angle),
        sin (Stars.degToRad angle)) /\
  Stars.scale (Stars.group after)
    <> (cos (2 * angle), cos (2 * angle), cos (2 * angle)).
Proof.
  cbn [Stars.frames Stars.frame Stars.init Stars.theta Stars.group
       Stars.rotation Stars.scale INR].
  replace (0 + 0.01) with 0.01 by lra.
  split; [lra|]. split.
  - intros Heq.
    assert (Hsin : 0 < sin (Stars.degToRad 0.01)).
    { destruct (degToRad_small 0.01) as [Hlo Hhi]; [lra|].
      apply sin_gt_0; [exact Hlo|].
      unfold Stars.degToRad in *. pose proof PI_RGT_0. lra. }
    injection Heq as H1 _ _. lra.
  - intros Heq.
    assert (Hcos : cos (2 * 0.01) < cos (Stars.degToRad (0.01 * 2))).
    { pose proof PI_RGT_0. pose proof PI_4. pose proof PI2_1.
      apply cos_decreasing_1; unfold Stars.degToRad; lra. }
    injection Heq as H1 _ _. lra.
Qed.

(** ** The image layer: hover and mesh scale *)

Lemma meshScale_error (baseScale f g : R) :
  vx (Image.meshScale baseScale f) - baseScale * g = baseScale * (f - g) /\
  vy (Image.meshScale baseScale f) - baseScale * g = baseScale * (f - g).
Proof. unfold Image.meshScale, vx, vy; cbn [fst snd]. split; ring. Qed.

(** C5: entering sets the hover flag and sends the factor spring to 1.25,
    leaving clears it and sends the spring to 1; once the spring's value is
    within [eps] of its target while hovered, the two scaled axes of the
    mesh are within [|baseScale| * eps] of [baseScale * 1.25], and they equal
    it when the value is the target. *)
Theorem image_hover_scale (st : Image.State) (baseScale f eps : R)
  (Hsettled : Rabs (f - Image.factorTarget (Image.hover st)) <= eps) :
  Image.hovered (Image.hover st) = true /\
  Image.hovered (Image.unhover st) = false /\
  Image.factorTarget (Image.hover st) = 1.25 /\
  Image.factorTarget (Image.unhover st) = 1 /\
  Image.meshScale baseScale (Image.factorTarget (Image.hover st))
    = (baseScale * 1.25, baseScale * 1.25, 1) /\
  Rabs (vx (Image.meshScale baseScale f) - baseScale * 1.25) <= Rabs baseScale * eps /\
  Rabs (vy (Image.meshScale baseScale f) - baseScale * 1.25) <= Rabs baseScale * eps.
Proof.
  cbn [Image.hover Image.unhover Image.hovered Image.factorTarget] in *.
  destruct (meshScale_error baseScale f 1.25) as [Hx Hy].
  repeat split; try reflexivity.
  - rewrite Hx, Rabs_mult.
    apply Rmult_le_compat_l; [apply Rabs_pos | exact Hsettled].
  - rewrite Hy, Rabs_mult.
    apply Rmult_le_compat_l; [apply Rabs_pos | exact Hsettled].
Qed.

Lemma image_hover_scale_witness :
  Rabs (1.25 - Image.factorTarget (Image.hover Image.init)) <= 0 /\
  Image.meshScale 2 (Image.factorTarget (Image.hover Image.init))
    = (2 * 1.25, 2 * 1.25, 1) /\
  Rabs (vx (Image.meshScale 2 1.25) - 2 * 1.25) <= Rabs 2 * 0.
Proof.
  assert (H : Rabs (1.25 - Image.factorTarget (Image.hover Image.init)) <= 0).
  { cbn [Image.hover Image.hovered Image.factorTarget].
    rewrite Rminus_diag, Rabs_R0. lra. }
  split; [exact H|].
  pose proof (image_hover_scale Image.init 2 1.25 0 H) as (_ & _ & _ & _ & Hs & Hx & _).
  split; [exact Hs | exact Hx].
Defined.

(** C8: whatever the hover factor and the base scale, the mesh scale is
    [scale * f, scale * f, 1]; its z component is 1. *)
Theorem image_meshScale_z (scale f : R) (st : Image.State) :
  Image.meshScale scale f = (scale * f, scale * f, 1) /\
  vz (Image.meshScale scale f) = 1 /\
  vz (Image.meshScale scale (Image.factorTarget st)) = 1.
Proof.
  unfold Image.meshScale, vz; cbn [snd]. repeat split.
Qed.

(** ** The root controller: initial values and event handlers *)

(** C10: before any event both animated values are at their initial values,
    top = 0 and mouse = [0, 0], and are sent nowhere else. *)
Theorem main_initial_values :
  Main.value (Main.top Main.init) = 0 /\
  Main.value (Main.mouse Main.init) = (0, 0) /\
  Main.target (Main.top Main.init) = 0 /\
  Main.target (Main.mouse Main.init) = (0, 0).
Proof. repeat split. Qed.

(** C7: a scroll event with offset [s] sends top to [s]; a pointer move at
    [(x, y)] sends mouse to [(x - innerWidth / 2, y - innerHeight / 2)];
    each handler leaves the other value and both current values alone. *)
Theorem main_event_targets (st : Main.State) (w : Main.Window) (s x y : R) :
  let scrolled := Main.onScroll (Main.mkScrollEvent s) st in
  let moved := Main.onMouseMove w (Main.mkMouseEvent x y) st in
  Main.target (Main.top scrolled) = s /\
  Main.target (Main.mouse moved)
    = (x - Main.innerWidth w / 2, y - Main.innerHeight w / 2) /\
  Main.mouse scrolled = Main.mouse st /\
  Main.top moved = Main.top st /\
  Main.value (Main.top scrolled) = Main.value (Main.top st) /\
  Main.value (Main.mouse moved) = Main.value (Main.mouse st).
Proof.
  cbn [Main.onScroll Main.onMouseMove Main.set_top Main.set_mouse
       Main.top Main.mouse Main.target Main.value
       Main.scrollTop Main.clientX Main.clientY].
  repeat split.
Qed.

(** ** The text layer: when the bitmap is redrawn *)

Lemma draw_fillText (children color : string) (fontSize : R) :
  Text.fillText (Text.draw children color fontSize) = [(children, 1024, 819)].
Proof.
  unfold Text.draw; cbn [Text.fillText].
  replace (1024 - 410 / 2) with 819 by lra. reflexivity.
Qed.

Lemma render_cell (props : TextProps) (size viewport : Size) (cell : Text.Cell) :
  let deps := (t_children props, width size, height size) in
  let out := Text.render props size viewport cell in
  snd out = Some (deps, Text.map_image (fst out)).
Proof.
  unfold Text.render, Text.useMemo.
  destruct cell as [[old cached]|]; [|reflexivity].
  destruct (Text.deps_eq_dec old _) as [->|Hne]; reflexivity.
Qed.

Lemma render_cached (props : TextProps) (size viewport : Size)
  (deps : Text.Deps) (cached : Text.Canvas) :
  deps = (t_children props, width size, height size) ->
  Text.render props size viewport (Some (deps, cached))
  = (Text.mkSprite
       (let scale := if Rlt_dec (height viewport) (width viewport)
                     then width viewport else height viewport in
        (scale, scale, 1))
       (t_position props) (t_opacity props) cached,
     Some (deps, cached)).
Proof.
  intros ->. unfold Text.render, Text.useMemo.
  destruct (Text.deps_eq_dec _ _) as [_|Hne]; [reflexivity | contradiction].
Qed.

(** C9: the canvas is redrawn only on the first render or when the string
    or the canvas size differs from the remembered one; otherwise the
    remembered bitmap is shown.  A render that changes only [color] and
    [fontSize] shows the bitmap of the render before it.  Whatever
    [fontSize] is, the text is drawn at (1024, 1024 - 410 / 2) = (1024, 819). *)
Theorem text_canvas_memo (props : TextProps) (size viewport : Size) (cell : Text.Cell) :
  let deps := (t_children props, width size, height size) in
  let out := Text.render props size viewport cell in
  (Text.regenerates cell deps = true <->
     cell = None \/ exists old cached, cell = Some (old, cached) /\ old <> deps) /\
  (Text.regenerates cell deps = false ->
     exists cached,
       cell = Some (deps, cached) /\ Text.map_image (fst out) = cached /\ snd out = cell) /\
  (Text.regenerates cell deps = true ->
     Text.map_image (fst out)
     = Text.draw (t_children props) (t_color props) (t_fontSize props)) /\
  (forall (color' : string) (fontSize' : R) (viewport' : Size),
     let again :=
       Text.render (Text.restyle props color' fontSize') size viewport' (snd out) in
     Text.regenerates (snd out) deps = false /\
     Text.map_image (fst again) = Text.map_image (fst out) /\
     snd again = snd out) /\
  (forall (children color : string) (fontSize : R),
     Text.fillText (Text.draw children color fontSize) = [(children, 1024, 819)]).
Proof.
  intros deps out. split; [|split; [|split; [|split]]].
  - unfold Text.regenerates. destruct cell as [[old cached]|].
    + destruct (Text.deps_eq_dec old deps) as [Heq|Hne]; split.
      * discriminate.
      * intros [Hnone | (old' & cached' & Hsome & Hne)]; [discriminate|].
        injection Hsome as <- _. contradiction.
      * intros _. right. exists old, cached. split; [reflexivity | exact Hne].
      * reflexivity.
    + split; [intros _; left|]; reflexivity.
  - subst out. unfold Text.regenerates, Text.render, Text.useMemo.
    destruct cell as [[old cached]|]; [|discriminate].
    fold deps. destruct (Text.deps_eq_dec old deps) as [->|Hne]; [|discriminate].
    intros _. exists cached. repeat split.
  - subst out. unfold Text.regenerates, Text.render, Text.useMemo.
    destruct cell as [[old cached]|]; [|reflexivity].
    fold deps. destruct (Text.deps_eq_dec old deps) as [|Hne]; [discriminate|].
    reflexivity.
  - intros color' fontSize' viewport' again.
    pose proof (render_cell props size viewport cell) as Hcell.
    cbn zeta in Hcell. fold deps out in Hcell.
    subst again. rewrite Hcell. split; [|split].
    + unfold Text.regenerates.
      destruct (Text.deps_eq_dec deps deps) as [_|Hne]; [reflexivity | contradiction].
    + rewrite render_cached by reflexivity. reflexivity.
    + rewrite render_cached by reflexivity. reflexivity.
  - apply draw_fillText.
Qed.

Lemma text_canvas_memo_witness :
  let props := mkTextProps "lorem" (0, -1, 0) (Some 1) "white" 410 in
  let size := mkSize 800 600 in
  let first := Text.render props size size None in
  let again := Text.render (Text.restyle props "black" 150) size size (snd first) in
  Text.map_image (fst again) = Text.map_image (fst first) /\
  Text.fillStyle (Text.map_image (fst again)) = "white"%string.
Proof.
  intros props size first again.
  destruct (text_canvas_memo props size size None) as (_ & _ & _ & Hagain & _).
  destruct (Hagain "black"%string 150 size) as (_ & Hsame & _).
  split; [exact Hsame|].
  fold first again in Hsame. rewrite Hsame. reflexivity.
Defined.

(** ** What the layers show for one pair of animated values *)


Section Layers.

Variable integrateR : Main.Spring R -> Main.Spring R.
Variable integrateV : Main.Spring Vec2 -> Main.Spring Vec2.




End Layers.




(** ** Further properties of the text layer *)

(** The sprite is scaled by the larger side of the viewport on x and y and by
    1 on z, so it is at least as wide and as high as the viewport, whatever
    the cell holds. *)
Theorem text_sprite_covers_viewport (props : TextProps) (size viewport : Size)
  (cell : Text.Cell) :
  let sprite := fst (Text.render props size viewport cell) in
  let side := Rmax (width viewport) (height viewport) in
  Text.sprite_scale sprite = (side, side, 1) /\
  width viewport <= vx (Text.sprite_scale sprite) /\
  height viewport <= vy (Text.sprite_scale sprite).
Proof.
  intros sprite side.
  assert (Hscale : Text.sprite_scale sprite = (side, side, 1)).
  { subst sprite side. unfold Text.render.
    destruct (Text.useMemo _ _ _) as [canvas cell'].
    cbn [fst Text.sprite_scale]. unfold Rmax.
    destruct (Rlt_dec (height viewport) (width viewport)) as [Hlt|Hge];
      destruct (Rle_dec (width viewport) (height viewport)) as [Hle|Hgt];
      reflexivity || lra. }
  rewrite Hscale. unfold vx, vy; cbn [fst snd]. subst side.
  split; [reflexivity|]. split; [apply Rmax_l | apply Rmax_r].
Qed.

Lemma draw_shows (children color : string) (fontSize : R) :
  Text.showsString (Text.draw children color fontSize) children.
Proof.
  unfold Text.showsString. rewrite draw_fillText. repeat split.
Qed.

Lemma render_shows (props : TextProps) (size viewport : Size) (cell : Text.Cell) :
  Text.cellShows cell ->
  Text.showsString (Text.map_image (fst (Text.render props size viewport cell)))
    (t_children props).
Proof.
  intros Hcell. unfold Text.render, Text.useMemo.
  destruct cell as [[[[s w] h] cached]|]; [|apply draw_shows].
  destruct (Text.deps_eq_dec _ _) as [Heq|Hne]; [|apply draw_shows].
  injection Heq as -> _ _. exact Hcell.
Qed.

Lemma render_keeps_cellShows (props : TextProps) (size viewport : Size)
  (cell : Text.Cell) :
  Text.cellShows cell ->
  Text.cellShows (snd (Text.render props size viewport cell)).
Proof.
  intros Hcell. pose proof (render_cell props size viewport cell) as Hsnd.
  cbn zeta in Hsnd. rewrite Hsnd. cbn [Text.cellShows].
  apply render_shows, Hcell.
Qed.

Lemma renders_keep_cellShows (rs : list (TextProps * Size * Size)) (cell : Text.Cell) :
  Text.cellShows cell -> Text.cellShows (Text.renders rs cell).
Proof.
  revert cell. induction rs as [|[[props size] viewport] rs IH]; intros cell Hcell.
  - exact Hcell.
  - unfold Text.renders in *. cbn [fold_left fst snd].
    apply IH, render_keeps_cellShows, Hcell.
Qed.

(** After any renders since the component was mounted, the bitmap on the
    sprite shows the string of the current render, once, at (1024, 819) on a
    2048 x 2048 canvas: the text is never out of date, whatever was cached. *)
Theorem text_bitmap_shows_current_string (rs : list (TextProps * Size * Size))
  (props : TextProps) (size viewport : Size) :
  let sprite := fst (Text.render props size viewport (Text.renders rs None)) in
  Text.fillText (Text.map_image sprite) = [(t_children props, 1024, 819)] /\
  Text.c_width (Text.map_image sprite) = 2048 /\
  Text.c_height (Text.map_image sprite) = 2048.
Proof.
  apply render_shows, renders_keep_cellShows. exact I.
Qed.

(** ** Further properties of the star field *)

Lemma frames_group (n : nat) (st : Stars.State) :
  n <> 0%nat ->
  let angle := Stars.theta st + 0.01 * INR n in
  let r := 5 * sin (Stars.degToRad angle) in
  let s := cos (Stars.degToRad (angle * 2)) in
  Stars.group (Stars.frames n st) = Stars.mkGroup (r, r, r) (s, s, s).
Proof.
  destruct n as [|n]; [contradiction|]. intros _.
  cbn zeta. rewrite <- frames_theta. reflexivity.
Qed.

Lemma INR_hundreds (h : nat) : INR (h * 100) = INR h * 100.
Proof.
  rewrite mult_INR. f_equal. rewrite INR_IZR_INZ. reflexivity.
Qed.

(** On every frame, from any starting state, the rotation set on the three
    axes lies in [-5, 5] and the scale set on the three axes lies in
    [-1, 1]. *)
Theorem stars_transform_bounded (N : nat) (st : Stars.State) :
  exists r s : R,
    Stars.group (Stars.frames (S N) st) = Stars.mkGroup (r, r, r) (s, s, s) /\
    -5 <= r <= 5 /\ -1 <= s <= 1.
Proof.
  pose proof (frames_group (S N) st) as Hgroup. cbn zeta in Hgroup.
  eexists. eexists. split; [apply Hgroup; discriminate|].
  split.
  - pose proof (SIN_bound (Stars.degToRad (Stars.theta st + 0.01 * INR (S N)))).
    lra.
  - apply COS_bound.
Qed.

(** The accumulator grows without bound, but the transform it drives
    repeats: 36000 frames later the group has the same rotation and scale. *)
Theorem stars_transform_periodic (N : nat) (st : Stars.State) :
  Stars.group (Stars.frames (S N + 360 * 100) st)
  = Stars.group (Stars.frames (S N) st).
Proof.
  rewrite !frames_group by lia. cbn zeta.
  set (angle := Stars.theta st + 0.01 * INR (S N)).
  replace (Stars.theta st + 0.01 * INR (S N + 360 * 100)) with (angle + 360).
  2:{ subst angle. rewrite plus_INR, INR_hundreds, (INR_IZR_INZ 360).
      change (IZR (Z.of_nat 360)) with 360. lra. }
  replace (Stars.degToRad (angle + 360))
    with (Stars.degToRad angle + 2 * INR 1 * PI)
    by (unfold Stars.degToRad; cbn [INR]; field).
  replace (Stars.degToRad ((angle + 360) * 2))
    with (Stars.degToRad (angle * 2) + 2 * INR 2 * PI)
    by (unfold Stars.degToRad; cbn [INR]; field).
  rewrite sin_period, cos_period. reflexivity.
Qed.

(** The star field collapses to a point on frame 4500 and every 9000 frames
    after it: there the scale set on the three axes is 0. *)
Theorem stars_scale_vanishes (k : nat) :
  Stars.scale (Stars.group (Stars.frames (45 * 100 + 90 * 100 * k) Stars.init))
  = (0, 0, 0).
Proof.
  rewrite frames_group by lia. cbn zeta. cbn [Stars.scale Stars.init Stars.theta].
  assert (Hcos : cos (Stars.degToRad
                        ((0 + 0.01 * INR (45 * 100 + 90 * 100 * k)) * 2)) = 0).
  { apply cos_eq_0_1. exists (Z.of_nat k).
    rewrite plus_INR, INR_hundreds, mult_INR, INR_hundreds.
    rewrite (INR_IZR_INZ 45), (INR_IZR_INZ 90), (INR_IZR_INZ k).
    change (IZR (Z.of_nat 45)) with 45. change (IZR (Z.of_nat 90)) with 90.
    unfold Stars.degToRad. replace 0.01 with (1 / 100) by lra. field. }
  rewrite Hcos. reflexivity.
Qed.

Lemma coord_in_cube (random : nat -> R) (k : nat) :
  (forall n, 0 <= random n < 1) ->
  -400 <= vx (Stars.coord random k) < 400 /\
  -400 <= vy (Stars.coord random k) < 400 /\
  -400 <= vz (Stars.coord random k) < 400.
Proof.
  intros Hrandom. unfold Stars.coord, vx, vy, vz; cbn [fst snd].
  pose proof (Hrandom (3 * k)%nat). pose proof (Hrandom (3 * k + 1)%nat).
  pose proof (Hrandom (3 * k + 2)%nat). lra.
Qed.

(** With every random number in [0, 1), the star field has 1000 positions,
    each with its three coordinates in [-400, 400). *)
Theorem stars_coords_in_cube (random : nat -> R)
  (Hrandom : forall n, 0 <= random n < 1) :
  List.length (Stars.coords random) = 1000%nat /\
  Forall (fun c => -400 <= vx c < 400 /\ -400 <= vy c < 400 /\ -400 <= vz c < 400)
    (Stars.coords random).
Proof.
  unfold Stars.coords. split.
  - rewrite length_map, length_seq. reflexivity.
  - apply Forall_forall. intros c Hc.
    apply in_map_iff in Hc as (k & <- & _). apply coord_in_cube, Hrandom.
Qed.

Lemma stars_coords_in_cube_witness :
  (forall n : nat, 0 <= (fun _ : nat => 0.5) n < 1) /\
  List.length (Stars.coords (fun _ => 0.5)) = 1000%nat.
Proof.
  assert (H : forall n : nat, 0 <= (fun _ : nat => 0.5) n < 1) by (intros n; lra).
  split; [exact H|]. exact (proj1 (stars_coords_in_cube (fun _ => 0.5) H)).
Defined.

(** ** Further properties of the running page *)

Section PageRuns.

Variable integrateR : Main.Spring R -> Main.Spring R.
Variable integrateV : Main.Spring Vec2 -> Main.Spring Vec2.

Let step := Page.step integrateR integrateV.
Let run := Page.run integrateR integrateV.

Lemma run_cons (ev : Page.Event) (evs : list Page.Event) (w : Page.World) :
  run (ev :: evs) w = run evs (step w ev).
Proof. reflexivity. Qed.

Lemma run_app (evs evs' : list Page.Event) (w : Page.World) :
  run (evs ++ evs') w = run evs' (run evs w).
Proof. apply fold_left_app. Qed.

Lemma step_theta (w : Page.World) (ev : Page.Event) :
  Stars.theta (Page.w_stars (step w ev))
  = Stars.theta (Page.w_stars w) + (if Page.isFrame ev then 0.01 else 0).
Proof.
  destruct ev; cbn [step Page.step Page.w_stars Page.isFrame Stars.frame Stars.theta];
    ring.
Qed.

Lemma run_theta (evs : list Page.Event) (w : Page.World) :
  Stars.theta (Page.w_stars (run evs w))
  = Stars.theta (Page.w_stars w)
    + 0.01 * INR (List.length (filter Page.isFrame evs)).
Proof.
  revert w. induction evs as [|ev evs IH]; intros w.
  - cbn [filter List.length INR]. change (run [] w) with w. ring.
  - rewrite run_cons, IH, step_theta. cbn [filter].
    destruct (Page.isFrame ev); [cbn [List.length]; rewrite S_INR|]; ring.
Qed.

Lemma step_top_target (w : Page.World) (ev : Page.Event) :
  Page.isScroll ev = false -> Page.isFrame ev = false ->
  Main.target (Main.top (Page.w_main (step w ev)))
  = Main.target (Main.top (Page.w_main w)).
Proof.
  destruct ev; intros Hs Hf; try discriminate; reflexivity.
Qed.

Lemma step_mouse_target (w : Page.World) (ev : Page.Event) :
  Page.isMouseMove ev = false -> Page.isFrame ev = false ->
  Main.target (Main.mouse (Page.w_main (step w ev)))
  = Main.target (Main.mouse (Page.w_main w)).
Proof.
  destruct ev; intros Hs Hf; try discriminate; reflexivity.
Qed.

Lemma run_top_target (evs : list Page.Event) (w : Page.World) :
  forallb (fun ev => negb (Page.isScroll ev) && negb (Page.isFrame ev)) evs = true ->
  Main.target (Main.top (Page.w_main (run evs w)))
  = Main.target (Main.top (Page.w_main w)).
Proof.
  revert w. induction evs as [|ev evs IH]; intros w Hevs; [reflexivity|].
  cbn [forallb] in Hevs. apply andb_true_iff in Hevs as [Hev Hrest].
  apply andb_true_iff in Hev as [Hs Hf]. apply negb_true_iff in Hs, Hf.
  rewrite run_cons, IH by exact Hrest. apply step_top_target; assumption.
Qed.

Lemma run_mouse_target (evs : list Page.Event) (w : Page.World) :
  forallb (fun ev => negb (Page.isMouseMove ev) && negb (Page.isFrame ev)) evs = true ->
  Main.target (Main.mouse (Page.w_main (run evs w)))
  = Main.target (Main.mouse (Page.w_main w)).
Proof.
  revert w. induction evs as [|ev evs IH]; intros w Hevs; [reflexivity|].
  cbn [forallb] in Hevs. apply andb_true_iff in Hevs as [Hev Hrest].
  apply andb_true_iff in Hev as [Hs Hf]. apply negb_true_iff in Hs, Hf.
  rewrite run_cons, IH by exact Hrest. apply step_mouse_target; assumption.
Qed.

End PageRuns.

(** Whatever scroll, pointer, hover and resize events come between the
    frames, the star-field accumulator has advanced by 0.01 for each frame
    rendered and by nothing else. *)
Theorem page_theta_counts_frames
  (integrateR : Main.Spring R -> Main.Spring R)
  (integrateV : Main.Spring Vec2 -> Main.Spring Vec2)
  (evs : list Page.Event) (w : Page.World) :
  Stars.theta (Page.w_stars (Page.run integrateR integrateV evs w))
  = Stars.theta (Page.w_stars w)
    + 0.01 * INR (List.length (filter Page.isFrame evs)).
Proof. apply run_theta. Qed.

(** The scroll target is the offset of the latest scroll event: pointer,
    hover and resize events after it leave it alone. *)
Theorem page_scroll_target_latest
  (integrateR : Main.Spring R -> Main.Spring R)
  (integrateV : Main.Spring Vec2 -> Main.Spring Vec2)
  (before after : list Page.Event) (e : Main.ScrollEvent) (w : Page.World)
  (Hafter : forallb (fun ev => negb (Page.isScroll ev) && negb (Page.isFrame ev))
              after = true) :
  Main.target (Main.top (Page.w_main
    (Page.run integrateR integrateV (before ++ Page.Scroll e :: after) w)))
  = Main.scrollTop e.
Proof.
  rewrite run_app, run_cons, run_top_target by exact Hafter. reflexivity.
Qed.

Lemma page_scroll_target_latest_witness :
  let w := Page.mkWorld (mkSize 800 600) (Main.mkWindow 800 600)
             Main.init Stars.init [Image.init] in
  let after := [Page.MouseMove (Main.mkMouseEvent 10 20); Page.Hover 0;
                Page.Resize (mkSize 640 480) (Main.mkWindow 640 480)] in
  forallb (fun ev => negb (Page.isScroll ev) && negb (Page.isFrame ev)) after = true /\
  Main.target (Main.top (Page.w_main
    (Page.run (fun s => s) (fun s => s)
       ([Page.Scroll (Main.mkScrollEvent 50); Page.Frame]
          ++ Page.Scroll (Main.mkScrollEvent 120) :: after) w)))
  = 120.
Proof.
  intros w after. split; [reflexivity|].
  apply (page_scroll_target_latest (fun s => s) (fun s => s)
           [Page.Scroll (Main.mkScrollEvent 50); Page.Frame] after
           (Main.mkScrollEvent 120) w).
  reflexivity.
Defined.

(** The pointer target is the offset of the latest pointer move from the
    centre of the window as it was at that move: a later resize does not
    re-centre it, and scroll and hover events leave it alone. *)
Theorem page_mouse_target_latest
  (integrateR : Main.Spring R -> Main.Spring R)
  (integrateV : Main.Spring Vec2 -> Main.Spring Vec2)
  (before after : list Page.Event) (e : Main.MouseEvent) (w : Page.World)
  (Hafter : forallb (fun ev => negb (Page.isMouseMove ev) && negb (Page.isFrame ev))
              after = true) :
  let window := Page.w_window (Page.run integrateR integrateV before w) in
  Main.target (Main.mouse (Page.w_main
    (Page.run integrateR integrateV (before ++ Page.MouseMove e :: after) w)))
  = (Main.clientX e - Main.innerWidth window / 2,
     Main.clientY e - Main.innerHeight window / 2).
Proof.
  intros window. subst window.
  rewrite run_app, run_cons, run_mouse_target by exact Hafter. reflexivity.
Qed.

Lemma page_mouse_target_latest_witness :
  let w := Page.mkWorld (mkSize 800 600) (Main.mkWindow 800 600)
             Main.init Stars.init [Image.init] in
  let after := [Page.Resize (mkSize 640 480) (Main.mkWindow 640 480);
                Page.Scroll (Main.mkScrollEvent 50)] in
  forallb (fun ev => negb (Page.isMouseMove ev) && negb (Page.isFrame ev)) after = true /\
  Main.target (Main.mouse (Page.w_main
    (Page.run (fun s => s) (fun s => s)
       ([] ++ Page.MouseMove (Main.mkMouseEvent 500 100) :: after) w)))
  = (500 - 800 / 2, 100 - 600 / 2).
Proof.
  intros w after. split; [reflexivity|].
  apply (page_mouse_target_latest (fun s => s) (fun s => s)
           [] after (Main.mkMouseEvent 500 100) w).
  reflexivity.
Defined.

(** ** Further properties of the scene composer *)

(** Parallax: moving the pointer by (dx, dy) and scrolling by dt shifts an
    image by (-dx * factor / 50000, dy * factor / 50000 + 2 * dt * factor /
    scrollMax, dt / 2000); the shift does not depend on where the image, the
    pointer or the scroll offset were.  The canvas has a positive height. *)
Theorem image_position_parallax (size : Size) (d : ImageData)
  (top dt mx my dx dy : R) (Hheight : 0 < height size) :
  let before := imagePosition size d top (mx, my) in
  let after := imagePosition size d (top + dt) (mx + dx, my + dy) in
  vx after = vx before - dx * d_factor d / 50000 /\
  vy after = vy before + dy * d_factor d / 50000
             + 2 * dt * d_factor d / scrollMax size /\
  vz after = vz before + dt / 2000.
Proof.
  assert (HM : scrollMax size <> 0) by (unfold scrollMax; lra).
  unfold imagePosition, vx, vy, vz; cbn [fst snd].
  repeat split; field; exact HM.
Qed.

Lemma image_position_parallax_witness :
  0 < height (mkSize 800 600) /\
  vz (imagePosition (mkSize 800 600) (mkImageData "/a.png" 1 2 3 4 5) (100 + 20) (0 + 7, 0 + 9))
  = vz (imagePosition (mkSize 800 600) (mkImageData "/a.png" 1 2 3 4 5) 100 (0, 0))
    + 20 / 2000.
Proof.
  assert (H : 0 < height (mkSize 800 600)) by (cbn [height]; lra).
  split; [exact H|].
  exact (proj2 (proj2 (image_position_parallax (mkSize 800 600)
                         (mkImageData "/a.png" 1 2 3 4 5) 100 20 0 0 7 9 H))).
Defined.

(** At the end of the scroll range (top = scrollMax) with the pointer at the
    centre, every image has risen by twice its depth factor from its resting
    height [y * 1.15], and the second text has risen from -19 to 1.  The
    canvas has a positive height. *)
Theorem scene_end_of_scroll (data : list ImageData) (size : Size)
  (Hheight : 0 < height size) :
  let start := Scene data size 0 (0, 0) in
  let finish := Scene data size (scrollMax size) (0, 0) in
  map (fun i => vy (i_position i)) (images start)
    = map (fun d => d_y d * 1.15) data /\
  map (fun i => vy (i_position i)) (images finish)
    = map (fun d => d_y d * 1.15 + 2 * d_factor d) data /\
  t_position (text_ipsum start) = (0, -19, 0) /\
  t_position (text_ipsum finish) = (0, 1, 0).
Proof.
  assert (HM : scrollMax size <> 0) by (unfold scrollMax; lra).
  cbn [Scene images text_ipsum t_position]. rewrite !map_map.
  split; [|split; [|split]].
  - apply map_ext. intros d. unfold imageProps, imagePosition, vy; cbn [i_position fst snd].
    field; exact HM.
  - apply map_ext. intros d. unfold imageProps, imagePosition, vy; cbn [i_position fst snd].
    field; exact HM.
  - do 2 f_equal. field; exact HM.
  - do 2 f_equal. field; exact HM.
Qed.

Lemma scene_end_of_scroll_witness :
  0 < height (mkSize 800 600) /\
  t_position (text_ipsum (Scene [mkImageData "/a.png" 1 2 3 4 5] (mkSize 800 600)
                            (scrollMax (mkSize 800 600)) (0, 0)))
  = (0, 1, 0).
Proof.
  assert (H : 0 < height (mkSize 800 600)) by (cbn [height]; lra).
  split; [exact H|].
  exact (proj2 (proj2 (proj2 (scene_end_of_scroll
                                [mkImageData "/a.png" 1 2 3 4 5] (mkSize 800 600) H)))).
Defined.

(** What the pointer cannot move and what the scroll offset cannot move:
    the glitch factor, the background colour, the star field, both texts and
    each image's url, scale, opacity and depth are the same for every pointer
    position; the spot light and each image's x are the same for every scroll
    offset. *)
Theorem scene_pointer_and_scroll_separate (data : list ImageData) (size : Size)
  (top top' : R) (mouse mouse' : Vec2) :
  let here := Scene data size top mouse in
  let moved := Scene data size top mouse' in
  let scrolled := Scene data size top' mouse in
  (effects_factor moved = effects_factor here /\
   background_color moved = background_color here /\
   stars_position moved = stars_position here /\
   text_lorem moved = text_lorem here /\
   text_ipsum moved = text_ipsum here /\
   map (fun i => (i_url i, i_scale i, i_opacity i, vz (i_position i))) (images moved)
   = map (fun i => (i_url i, i_scale i, i_opacity i, vz (i_position i))) (images here)) /\
  (spotLight_position scrolled = spotLight_position here /\
   map (fun i => (i_url i, i_scale i, vx (i_position i))) (images scrolled)
   = map (fun i => (i_url i, i_scale i, vx (i_position i))) (images here)).
Proof.
  cbn [Scene effects_factor background_color stars_position text_lorem text_ipsum
       images spotLight_position].
  rewrite !map_map. repeat split.
Qed.

(** ** Further properties of the image layer *)

Lemma handles_snoc (evs : list Image.Pointer) (ev : Image.Pointer) (st : Image.State) :
  Image.handles (evs ++ [ev]) st = Image.handle (Image.handles evs st) ev.
Proof. unfold Image.handles. rewrite fold_left_app. reflexivity. Qed.

(** After any sequence of pointer events the image is hovered exactly when
    the last one was an enter, its spring is sent to 1.25 then and to 1
    otherwise, and the spring target never leaves [1, 1.25]. *)
Theorem image_hover_follows_last_event (evs : list Image.Pointer)
  (ev : Image.Pointer) (st : Image.State) :
  Image.hovered (Image.handles (evs ++ [ev]) st)
    = match ev with Image.Enter => true | Image.Leave => false end /\
  Image.factorTarget (Image.handles (evs ++ [ev]) st)
    = match ev with Image.Enter => 1.25 | Image.Leave => 1 end /\
  1 <= Image.factorTarget (Image.handles evs st) <= 1.25.
Proof.
  rewrite handles_snoc. split; [|split].
  - destruct ev; reflexivity.
  - destruct ev; reflexivity.
  - unfold Image.factorTarget. destruct (Image.hovered _); lra.
Qed.

(** ** The post-processing layer: when the composer is resized *)

Lemma effects_render_deps (st : Effects.State) (size : Size) :
  Effects.effect_deps (Effects.render st size) = Some (width size, height size).
Proof.
  unfold Effects.render. destruct (Effects.effect_deps st) as [old|] eqn:Hdeps.
  - destruct (Effects.size_eq_dec old _) as [->|Hne]; [exact Hdeps | reflexivity].
  - reflexivity.
Qed.

Lemma effects_render_head (st : Effects.State) (size : Size) :
  Effects.effect_deps st = hd_error (Effects.setSize_calls st) ->
  Effects.effect_deps (Effects.render st size)
  = hd_error (Effects.setSize_calls (Effects.render st size)).
Proof.
  intros Hinv. unfold Effects.render.
  destruct (Effects.effect_deps st) as [old|] eqn:Hdeps.
  - destruct (Effects.size_eq_dec old _) as [->|Hne]; [|reflexivity].
    rewrite Hdeps. exact Hinv.
  - reflexivity.
Qed.

Lemma effects_renders_head (sizes : list Size) (st : Effects.State) :
  Effects.effect_deps st = hd_error (Effects.setSize_calls st) ->
  Effects.effect_deps (Effects.renders sizes st)
  = hd_error (Effects.setSize_calls (Effects.renders sizes st)).
Proof.
  revert st. induction sizes as [|size sizes IH]; intros st Hinv; [exact Hinv|].
  unfold Effects.renders in *. cbn [fold_left].
  apply IH, effects_render_head, Hinv.
Qed.

Lemma effects_renders_calls (sizes : list Size) (st : Effects.State) :
  (List.length (Effects.setSize_calls (Effects.renders sizes st))
   <= List.length (Effects.setSize_calls st) + List.length sizes)%nat.
Proof.
  revert st. induction sizes as [|size sizes IH]; intros st.
  - cbn. lia.
  - unfold Effects.renders in *. cbn [fold_left List.length].
    specialize (IH (Effects.render st size)).
    assert (List.length (Effects.setSize_calls (Effects.render st size))
            <= S (List.length (Effects.setSize_calls st)))%nat.
    { unfold Effects.render. destruct (Effects.effect_deps st) as [old|].
      - destruct (Effects.size_eq_dec old _); cbn [Effects.setSize_calls List.length]; lia.
      - cbn [Effects.setSize_calls List.length]; lia. }
    lia.
Qed.

(** After any renders since the component was mounted, the size the composer
    was last given is the canvas size of the latest render; rendering again
    at that size calls [setSize] no more; and [setSize] has been called at
    most once per render. *)
Theorem effects_composer_size_tracks_canvas (sizes : list Size) (size : Size) :
  let st := Effects.renders (sizes ++ [size]) Effects.mount in
  hd_error (Effects.setSize_calls st) = Some (width size, height size) /\
  Effects.render st size = st /\
  (List.length (Effects.setSize_calls st) <= List.length sizes + 1)%nat.
Proof.
  intros st.
  assert (Hst : st = Effects.render (Effects.renders sizes Effects.mount) size).
  { subst st. unfold Effects.renders. rewrite fold_left_app. reflexivity. }
  assert (Hdeps : Effects.effect_deps st = Some (width size, height size)).
  { rewrite Hst. apply effects_render_deps. }
  split; [|split].
  - rewrite <- Hdeps. symmetry. subst st.
    apply effects_renders_head. reflexivity.
  - unfold Effects.render at 1. rewrite Hdeps.
    destruct (Effects.size_eq_dec _ _) as [_|Hne]; [reflexivity | contradiction].
  - pose proof (effects_renders_calls (sizes ++ [size]) Effects.mount) as Hcalls.
    fold st in Hcalls. rewrite length_app in Hcalls.
    cbn [Effects.mount Effects.setSize_calls List.length] in Hcalls. lia.
Qed.
